(** * Vocabulary game: the request handlers of [flask_vocab.py]

    A shallow embedding of the two handlers that touch the visitor's
    session, [index] (start a new game) and [check] (a submitted word),
    with the properties of the match-session state machine.

    The handlers are Python functions that read and write the Flask
    session and may raise.  They are embedded in a state-and-exception
    monad over the session: a handler maps the session before the request
    to the session after it and either a returned value or a raised
    exception.  The session after a raised exception is kept, since the
    writes made before the raise have happened.

    The modules [src.letterbag], [src.vocab], [src.jumble] and
    [src.config] are imported by the file and are not part of it; their
    operations are interfaces here (type classes), and the theorems hold
    for every implementation.  Instances that follow the specification are
    given in [SpecModel] and are used to run the handlers on concrete
    games. *)

From Stdlib Require Import ZArith Ascii.
From stdpp Require Import base decidable option list strings gmap.

Local Open Scope Z_scope.

(** ** Exceptions and the handler monad *)

(** The exceptions the handlers can raise: a missing session key
    ([flask.session[k]]), a failed [assert], and the failure of the jumble
    generator on unusable input. *)
Inductive Exn : Type :=
  | KeyError (key : string)
  | AssertionError
  | InvalidInput.

Inductive Result (A : Type) : Type :=
  | Return (a : A)
  | Raise (e : Exn).
Arguments Return {A} a.
Arguments Raise {A} e.

(** ** The session

    [flask.session] is a dictionary; the handlers use three of its keys.
    Each is a field that is absent ([None]) until [index] has set it. *)
Record Session : Type := mkSession {
  session_jumble : option string;
  session_target_count : option Z;
  session_matches : option (list string)
}.

(** A visitor who has not yet opened the index page. *)
Definition empty_session : Session := mkSession None None None.

Definition M (A : Type) : Type := Session → Session * Result A.

#[global] Instance M_ret : MRet M := λ A a s, (s, Return a).
#[global] Instance M_bind : MBind M := λ A B f m s,
  match m s with
  | (s', Return a) => f a s'
  | (s', Raise e) => (s', Raise e)
  end.
#[global] Instance M_throw : MThrow Exn M := λ A e s, (s, Raise e).

(** [flask.session[key]]: raises [KeyError] when the key is absent. *)
Definition getitem {A : Type} (key : string) (field : Session → option A) : M A :=
  λ s, match field s with
       | Some v => (s, Return v)
       | None => (s, Raise (KeyError key))
       end.

(** [flask.session.get(key, default)]. *)
Definition get_default {A : Type} (field : Session → option A) (default : A) : M A :=
  λ s, (s, Return (from_option id default (field s))).

(** [flask.session[key] = v], one definition per key. *)
Definition setitem_jumble (v : string) : M unit :=
  λ s, (mkSession (Some v) (session_target_count s) (session_matches s), Return ()).
Definition setitem_target_count (v : Z) : M unit :=
  λ s, (mkSession (session_jumble s) (Some v) (session_matches s), Return ()).
Definition setitem_matches (v : list string) : M unit :=
  λ s, (mkSession (session_jumble s) (session_target_count s) (Some v), Return ()).

(** [assert b]. *)
Definition assert (b : bool) : M unit :=
  if b then mret () else mthrow AssertionError.

(** A result computed outside the session (it may have raised). *)
Definition lift {A : Type} (r : Result A) : M A := λ s, (s, r).

(** Unfolds the monad and the session primitives. *)
Ltac run_handler :=
  unfold mbind, M_bind, mret, M_ret, mthrow, M_throw, getitem, get_default,
    setitem_jumble, setitem_target_count, setitem_matches, assert, lift;
  simpl.

(** ** Responses *)

(** The JSON object that [check] returns under the key [result]:
    [{"status": "success"}], [{"status": "keep_going", "word": w}] or
    [{"status": "error", "message": m}]. *)
Inductive Response : Type :=
  | Success
  | KeepGoing (word : string)
  | Error (message : string).

(** The name of the template rendered by a page handler. *)
Definition Page : Type := string.

(** The double quote character, for the message of the third rejection. *)
Definition dquote : string := String "034"%char EmptyString.

(** The three [str.format] calls of [check]. *)
Definition msg_already_found (text : string) : string :=
  "You already found " +:+ text.
Definition msg_not_in_vocab (text : string) : string :=
  text +:+ " isn't in the list of words".
Definition msg_not_in_jumble (text jumble : string) : string :=
  dquote +:+ text +:+ dquote +:+ " can't be made from the letters " +:+ jumble.

(** ** The imported modules, as interfaces *)

(** [src.vocab]: the shared, read-only [WORDS] object. *)
Class VocabOps : Type := {
  has : string → bool;          (* WORDS.has(word) *)
  as_list : list string         (* WORDS.as_list() *)
}.

(** [src.letterbag]: [contains jumble text] is
    [LetterBag(jumble).contains(text)]. *)
Class LetterBagOps : Type := {
  contains : string → string → bool
}.

(** [src.jumble]: [jumbled strings n seed].  With [seed=None] the function
    draws from the ambient random source; [Entropy] is what that source
    delivers to one call. *)
Class JumbleOps : Type := {
  Entropy : Type;
  jumbled : list string → Z → option Z → Entropy → Result string
}.

(** [src.config]: the two settings read by the handlers.  [SEED] is the
    module-level variable after lines 34-38: [Some n] when
    [int(CONFIG.SEED)] gave [n], and [None] when it raised [ValueError]. *)
Class Config : Type := {
  SUCCESS_AT_COUNT : Z;
  SEED : option Z
}.

(** ** The handlers *)

(** The [seed] argument of the call of [jumbled] in [index]:
    [None if not SEED or SEED < 0 else SEED].  [not SEED] is true for
    [None] and for the integer [0]. *)
Definition seed_arg (SEED : option Z) : option Z :=
  match SEED with
  | None => None
  | Some n => if (n =? 0) || (n <? 0) then None else Some n
  end.

(** The guards of the [if]/[elif]/[else] chain of [check], on the three
    booleans alone. *)
Inductive Branch : Type :=
  | Accept
  | AlreadyFound
  | NotInVocabulary
  | NotInJumble
  | Impossible.

Definition branch (in_jumble matched in_matches : bool) : Branch :=
  if matched && in_jumble && negb in_matches then Accept
  else if in_matches then AlreadyFound
  else if negb matched then NotInVocabulary
  else if negb in_jumble then NotInJumble
  else Impossible.

Section Handlers.
Context {V : VocabOps} {B : LetterBagOps} {J : JumbleOps} {C : Config}.

(** [index()]: the main page, which starts a new game.  [e] is what the
    ambient random source delivers during this request. *)
Definition index (e : Entropy) : M Page :=
  let g_vocab := as_list in
  setitem_target_count (Z.min (Z.of_nat (length g_vocab)) SUCCESS_AT_COUNT);;
  target_count ← getitem "target_count" session_target_count;
  jumble ← lift (jumbled g_vocab target_count (seed_arg SEED) e);
  setitem_jumble jumble;;
  setitem_matches [];;
  matches ← getitem "matches" session_matches;
  assert (bool_decide (matches = []));;
  target_count ← getitem "target_count" session_target_count;
  assert (bool_decide (0 < target_count));;
  mret "vocab.html".

(** [check()]: the visitor has submitted the word [text], the request
    parameter of that name, taken as it arrives.  Every branch
    of the chain returns or raises, so the statements that follow the
    chain in the source (a second test of the match count) are never
    run.  [matches.append(text)] extends the list held by the session,
    and the assignment that follows stores the same list. *)
Definition check (text : string) : M Response :=
  jumble ← getitem "jumble" session_jumble;
  matches ← get_default session_matches [];
  let in_jumble := contains jumble text in
  let matched := has text in
  _ ← getitem "target_count" session_target_count;
  _ ← getitem "matches" session_matches;
  if matched && in_jumble && negb (bool_decide (text ∈ matches)) then
    let matches := matches ++ [text] in
    setitem_matches matches;;
    target_count ← getitem "target_count" session_target_count;
    if bool_decide (target_count ≤ Z.of_nat (length matches)) then
      mret Success
    else
      mret (KeepGoing text)
  else if bool_decide (text ∈ matches) then
    mret (Error (msg_already_found text))
  else if negb matched then
    mret (Error (msg_not_in_vocab text))
  else if negb in_jumble then
    mret (Error (msg_not_in_jumble text jumble))
  else
    mthrow AssertionError.

(** [keep_going()] and [success()]: pages that render a template and do
    not touch the session. *)
Definition keep_going : M Page :=
  let g_vocab := as_list in
  mret "vocab.html".

Definition success : M Page := mret "success.html".

(** A visitor's successive submissions; the responses are dropped and
    the session is carried on. *)
Definition submit_all (texts : list string) (s : Session) : Session :=
  foldl (λ s text, (check text s).1) s texts.

End Handlers.

(** The state [Complete] of the session: the match count has reached the
    target. *)
Definition complete (s : Session) : bool :=
  match session_matches s, session_target_count s with
  | Some m, Some t => bool_decide (t ≤ Z.of_nat (length m))
  | _, _ => false
  end.

(** The target count that [index] stores:
    [min(len(flask.g.vocab), CONFIG.SUCCESS_AT_COUNT)]. *)
Abbreviation new_target :=
  (Z.min (Z.of_nat (length as_list)) SUCCESS_AT_COUNT).

(** The session of a started game: all three keys are present. *)
Definition game (jumble : string) (target_count : Z) (matches : list string)
    : Session :=
  mkSession (Some jumble) (Some target_count) (Some matches).

(** The decision table of the specification, read top to bottom; the first
    row that matches gives the outcome.  Named after the specification, to
    be compared with [check]. *)
Definition table_row (in_jumble is_vocab already_matched : bool) : Branch :=
  match in_jumble, is_vocab, already_matched with
  | true, true, false => Accept
  | _, _, true => AlreadyFound
  | _, false, false => NotInVocabulary
  | false, true, false => NotInJumble
  end.

(** [submit] of the specification on a started game: the session after the
    submission and the outcome. *)
Definition spec_submit {V : VocabOps} {B : LetterBagOps}
    (word jumble : string) (target_count : Z) (matches : list string)
    : Session * Result Response :=
  match table_row (contains jumble word) (has word)
                  (bool_decide (word ∈ matches)) with
  | Accept =>
      (game jumble target_count (matches ++ [word]),
       Return (if bool_decide (target_count ≤ Z.of_nat (length (matches ++ [word])))
               then Success else KeepGoing word))
  | AlreadyFound =>
      (game jumble target_count matches,
       Return (Error ("You already found " +:+ word)))
  | NotInVocabulary =>
      (game jumble target_count matches,
       Return (Error (word +:+ " isn't in the list of words")))
  | NotInJumble | Impossible =>
      (game jumble target_count matches,
       Return (Error (dquote +:+ word +:+ dquote
                      +:+ " can't be made from the letters " +:+ jumble)))
  end.

(** ** The other handlers *)

(** [example()]: the object returned under the key [result]. *)
Definition example : M (list (string * string)) := mret [("key", "value")].

(** [format_filt(something)], the template filter. *)
Definition format_filt {A : Type} (something : A) : string :=
  "Not what you asked for".

(** The error handlers: the template rendered and the status code.  The
    handler for 500 asserts [not True] before it returns. *)
Definition error_404 (e : string) : M (Page * Z) := mret ("404.html", 404).

Definition error_500 (e : string) : M (Page * Z) :=
  assert (negb true);;
  mret ("500.html", 500).

Definition error_403 (e : string) : M (Page * Z) := mret ("403.html", 403).

(** ** Requests

    The routes of the application.  A request for [/] or [/index] carries
    what the ambient random source delivers while it is served; a request
    for [/_check] carries the submitted text. *)
Inductive Request {J : JumbleOps} : Type :=
  | GET_index (e : Entropy)
  | GET_keep_going
  | GET_success
  | GET_check (text : string)
  | GET_example.

(** The session that the handler of a route leaves. *)
Definition handle {V : VocabOps} {B : LetterBagOps} {J : JumbleOps} {C : Config}
    (r : Request) (s : Session) : Session :=
  match r with
  | GET_index e => (index e s).1
  | GET_keep_going => (keep_going s).1
  | GET_success => (success s).1
  | GET_check text => (check text s).1
  | GET_example => (example s).1
  end.

(** A visitor's successive requests.  A request whose handler raised is
    taken to leave the writes it made before the raise; where such writes
    are dropped instead, the sessions reached are among those reached
    here, with the failed requests left out of the run. *)
Definition serve {V : VocabOps} {B : LetterBagOps} {J : JumbleOps} {C : Config}
    (rs : list Request) (s : Session) : Session :=
  foldl (λ s r, handle r s) s rs.

(** A word that the game may accept: [WORDS.has] and
    [LetterBag(jumble).contains] both hold of it. *)
Definition playable {V : VocabOps} {B : LetterBagOps}
    (jumble w : string) : Prop :=
  has w = true ∧ contains jumble w = true.

(** What holds of every session a visitor can reach: a target count, when
    set, is the one [index] stores, and matches, when set, belong to a
    started game and are distinct playable words. *)
Definition session_inv {V : VocabOps} {B : LetterBagOps} {C : Config}
    (s : Session) : Prop :=
  (session_target_count s = None ∨ session_target_count s = Some new_target)
  ∧ (∀ m, session_matches s = Some m →
       ∃ j, s = game j new_target m ∧ NoDup m ∧ Forall (playable j) m).

(** ** Instances that follow the specification *)

Module SpecModel.

(** Modelled from the spec: the class [LetterBag] of [src.letterbag] is
    missing.  A string as a multiset of characters, held as a mapping
    from character to count. *)
Definition LetterBag (s : string) : gmap ascii nat :=
  foldr (λ c bag, <[c := S (default 0%nat (bag !! c))]> bag) ∅
        (String.list_ascii_of_string s).

(** Modelled from the spec: [contains] is true iff, for every distinct
    character of the candidate, its count in the candidate does not
    exceed its count in the multiset; an absent character counts zero. *)
Definition bag_contains (bag : gmap ascii nat) (candidate : string) : bool :=
  bool_decide
    (map_Forall (λ c n, (n ≤ default 0 (bag !! c))%nat) (LetterBag candidate)).

#[export] Instance letterbag_ops : LetterBagOps :=
  {| contains jumble text := bag_contains (LetterBag jumble) text |}.

(** Modelled from the spec: the class [Vocab] of [src.vocab] is missing.
    The vocabulary is the word list it was loaded from; [has] is exact
    membership and [as_list] the list in its stable order. *)
Definition vocab_ops (words : list string) : VocabOps :=
  {| has w := bool_decide (w ∈ words); as_list := words |}.

(** Modelled from the spec: the function [jumbled] of [src.jumble] is
    missing.  The letter pool is the concatenation of the first
    [target_count] words; the output is a permutation of the pool drawn
    from a pseudo-random source, which starts from the seed when one is
    given and is not negative, and from the ambient randomness otherwise.
    An empty word list is refused. *)
Definition next_random (g : Z) : Z := (g * 1103515245 + 12345) mod 2147483648.

(** Modelled from the spec: part of the missing [jumbled]; [x] is put at
    position [n] of [l], or at its end when [l] is shorter. *)
Fixpoint insert_at {A : Type} (n : nat) (x : A) (l : list A) : list A :=
  match n, l with
  | S n', y :: l' => y :: insert_at n' x l'
  | _, _ => x :: l
  end.

(** Modelled from the spec: part of the missing [jumbled]; the randomized
    permutation, each element placed at a position drawn from the
    source. *)
Fixpoint shuffle {A : Type} (g : Z) (l : list A) : list A :=
  match l with
  | [] => []
  | x :: l' =>
      insert_at (Z.to_nat (g mod Z.of_nat (S (length l')))) x
                (shuffle (next_random g) l')
  end.

(** Modelled from the spec: part of the missing [jumbled]; the letter
    pool, enough letters to spell [target_count] words. *)
Definition letter_pool (words : list string) (target_count : Z) : list ascii :=
  concat (String.list_ascii_of_string <$> take (Z.to_nat target_count) words).

(** Modelled from the spec: the missing [jumbled] itself,
    [generate(words, target_count, seed)], with the ambient randomness of
    the call as a fourth argument. *)
Definition generate (words : list string) (target_count : Z)
    (seed : option Z) (ambient : Z) : Result string :=
  match words with
  | [] => Raise InvalidInput
  | _ =>
      let g := match seed with
               | Some n => if n <? 0 then ambient else n
               | None => ambient
               end in
      Return (String.string_of_list_ascii (shuffle g (letter_pool words target_count)))
  end.

#[export] Instance jumble_ops : JumbleOps :=
  {| Entropy := Z; jumbled := generate |}.

(** Modelled from the spec: the configuration of [src.config], with its
    success threshold and its seed. *)
Definition config (success_at_count : Z) (seed : option Z) : Config :=
  {| SUCCESS_AT_COUNT := success_at_count; SEED := seed |}.

(** Modelled from the spec: normalisation of a submitted word is trimming
    white space at both ends and lowercasing; the source has no such step.
    Lowercasing of one ASCII letter. *)
Definition lower_char (c : ascii) : ascii :=
  let n := nat_of_ascii c in
  if bool_decide (65 ≤ n ≤ 90)%nat then ascii_of_nat (n + 32) else c.

(** Modelled from the spec: lowercasing of a word, absent from the
    source. *)
Fixpoint lower (s : string) : string :=
  match s with
  | EmptyString => EmptyString
  | String c s' => String (lower_char c) (lower s')
  end.

(** Modelled from the spec: trimming of leading white space, absent from
    the source. *)
Fixpoint lstrip (s : string) : string :=
  match s with
  | String c s' => if Ascii.is_space c then lstrip s' else s
  | EmptyString => EmptyString
  end.

(** Modelled from the spec: trimming at both ends, absent from the
    source. *)
Definition strip (s : string) : string :=
  String.rev (lstrip (String.rev (lstrip s))).

(** Modelled from the spec: the normalisation of step 1 of [submit],
    absent from the source. *)
Definition normalize (s : string) : string := lower (strip s).

End SpecModel.

(** ** The scenario of the specification: vocabulary cat, cats, act;
       target 2; jumble tacs *)

Module Scenario.
Import SpecModel.

#[local] Instance vocab : VocabOps := vocab_ops ["cat"; "cats"; "act"].
#[local] Instance cfg : Config := config 2 (Some 42).

Definition s0 : Session := mkSession (Some "tacs") (Some 2) (Some []).
Definition s1 : Session := mkSession (Some "tacs") (Some 2) (Some ["cat"]).
Definition s2 : Session := mkSession (Some "tacs") (Some 2) (Some ["cat"; "act"]).
Definition s3 : Session :=
  mkSession (Some "tacs") (Some 2) (Some ["cat"; "act"; "cats"]).

Example submit_cat : check "cat" s0 = (s1, Return (KeepGoing "cat")).
Proof. vm_compute. reflexivity. Qed.

Example submit_cat_again :
  check "cat" s1 = (s1, Return (Error "You already found cat")).
Proof. vm_compute. reflexivity. Qed.

Example submit_dog :
  check "dog" s1 = (s1, Return (Error "dog isn't in the list of words")).
Proof. vm_compute. reflexivity. Qed.

Example submit_act : check "act" s1 = (s2, Return Success).
Proof. vm_compute. reflexivity. Qed.

Example submit_cats_when_complete : check "cats" s2 = (s3, Return Success).
Proof. vm_compute. reflexivity. Qed.

Example submit_before_index :
  check "cat" empty_session = (empty_session, Raise (KeyError "jumble")).
Proof. vm_compute. reflexivity. Qed.

End Scenario.

(** * Properties *)

(** ** Running [check] *)

Section CheckFacts.
Context {V : VocabOps} {B : LetterBagOps}.

(** On a started game [check] follows its chain of guards, and touches
    the session in the first branch only. *)
Lemma check_game (text jumble : string) (t : Z) (m : list string) :
  check text (game jumble t m) =
    match branch (contains jumble text) (has text) (bool_decide (text ∈ m)) with
    | Accept =>
        (game jumble t (m ++ [text]),
         Return (if bool_decide (t ≤ Z.of_nat (length (m ++ [text])))
                 then Success else KeepGoing text))
    | AlreadyFound =>
        (game jumble t m, Return (Error (msg_already_found text)))
    | NotInVocabulary =>
        (game jumble t m, Return (Error (msg_not_in_vocab text)))
    | NotInJumble =>
        (game jumble t m, Return (Error (msg_not_in_jumble text jumble)))
    | Impossible => (game jumble t m, Raise AssertionError)
    end.
Proof.
  unfold check, branch, game. run_handler.
  destruct (has text), (contains jumble text), (bool_decide (text ∈ m));
    simpl; try reflexivity.
  by destruct (bool_decide (t ≤ Z.of_nat (length (m ++ [text])))).
Qed.

(** Before the index page has set a key, [check] raises [KeyError] and
    leaves the session as it was. *)
Lemma check_no_game (text : string) (s : Session) :
  session_jumble s = None ∨ session_target_count s = None
    ∨ session_matches s = None →
  ∃ key, check text s = (s, Raise (KeyError key)).
Proof.
  destruct s as [[j|] [t|] [m|]]; intros Hs; unfold check; run_handler;
    eauto; destruct Hs as [?|[?|?]]; discriminate.
Qed.

(** Every session is a started game or lacks a key. *)
Lemma session_cases (s : Session) :
  (∃ j t m, s = game j t m)
  ∨ session_jumble s = None ∨ session_target_count s = None
  ∨ session_matches s = None.
Proof.
  destruct s as [[j|] [t|] [m|]]; simpl; eauto 6.
Qed.

(** The guards cover every combination of the three booleans. *)
Lemma branch_total (in_jumble matched in_matches : bool) :
  branch in_jumble matched in_matches ≠ Impossible.
Proof. by destruct in_jumble, matched, in_matches. Qed.

(** The chain of guards and the table of the specification agree. *)
Lemma branch_table_row (in_jumble matched in_matches : bool) :
  branch in_jumble matched in_matches = table_row in_jumble matched in_matches.
Proof. by destruct in_jumble, matched, in_matches. Qed.

End CheckFacts.

(** ** The decision table *)

Section DecisionTable.
Context {V : VocabOps} {B : LetterBagOps}.

(** C1.  On a started game, [check] decides every submitted word by the
    decision table of the specification, first matching row first: a
    word that is in the jumble, in the vocabulary and not yet matched is
    appended to the matches, with outcome [Success] when the match count
    has then reached the target and [KeepGoing] with the word otherwise;
    otherwise a word already matched is rejected as already found;
    otherwise a word outside the vocabulary is rejected; otherwise the
    word cannot be made from the jumble and is rejected for that. *)
Theorem check_decision_table (text jumble : string) (t : Z) (m : list string) :
  check text (game jumble t m) = spec_submit text jumble t m.
Proof.
  rewrite check_game, branch_table_row. unfold spec_submit.
  destruct (table_row _ _ _) eqn:Hrow; try reflexivity.
  by destruct (contains jumble text), (has text), (bool_decide (text ∈ m)).
Qed.

(** C2.  On a started game, a submission that is not accepted makes
    [check] return an error response as a value, with the session
    untouched: it raises nothing.  The message is "You already found
    {word}" for a word already matched, "{word} isn't in the list of
    words" for a word outside the vocabulary, and the quoted word
    followed by " can't be made from the letters {jumble}" for a
    vocabulary word that the jumble cannot spell. *)
Theorem rejections_are_data (text jumble : string) (t : Z) (m : list string) :
  ¬ (contains jumble text = true ∧ has text = true ∧ text ∉ m) →
  ∃ message,
    check text (game jumble t m) = (game jumble t m, Return (Error message))
    ∧ ((text ∈ m ∧ message = "You already found " +:+ text)
       ∨ ((text ∉ m) ∧ has text = false
          ∧ message = text +:+ " isn't in the list of words")
       ∨ ((text ∉ m) ∧ has text = true ∧ contains jumble text = false
          ∧ message = dquote +:+ text +:+ dquote
                      +:+ " can't be made from the letters " +:+ jumble)).
Proof.
  intros Hrej. rewrite check_game. unfold branch.
  destruct (decide (text ∈ m)) as [Hin|Hin].
  - rewrite (bool_decide_eq_true_2 _ Hin), andb_false_r. simpl. eauto.
  - rewrite (bool_decide_eq_false_2 _ Hin), andb_true_r. simpl.
    destruct (has text) eqn:Hhas; simpl.
    + destruct (contains jumble text) eqn:Hbag; simpl.
      * exfalso. by apply Hrej.
      * eexists. split; [reflexivity|]. right. right. done.
    + eexists. split; [reflexivity|]. right. left. done.
Qed.

(** C3.  The four guards of [check] cover the eight combinations of the
    three booleans, so the final [else] is never taken: whatever the
    word and the session, [check] does not raise [AssertionError]. *)
Theorem assertion_never_fires :
  (∀ in_jumble matched in_matches : bool,
     branch in_jumble matched in_matches ≠ Impossible)
  ∧ (∀ (text : string) (s : Session), (check text s).2 ≠ Raise AssertionError).
Proof.
  split; [apply branch_total|]. intros text s.
  destruct (session_cases s) as [(j & t & m & ->)|Hs].
  - rewrite check_game.
    pose proof (branch_total (contains j text) (has text)
                             (bool_decide (text ∈ m))) as Hb.
    by destruct (branch _ _ _).
  - destruct (check_no_game text s Hs) as [key ->]. done.
Qed.

(** C10.  When the game is already complete and the visitor submits a
    vocabulary word that the jumble can spell and that is not yet
    matched, the word is accepted all the same: it is appended to the
    matches, whose count then exceeds the target, and the outcome is
    [Success]. *)
Theorem accepted_when_complete (text jumble : string) (t : Z) (m : list string) :
  t ≤ Z.of_nat (length m) →
  contains jumble text = true → has text = true → text ∉ m →
  check text (game jumble t m) = (game jumble t (m ++ [text]), Return Success)
  ∧ t < Z.of_nat (length (m ++ [text])).
Proof.
  intros Hdone Hbag Hhas Hnew. rewrite check_game. unfold branch.
  rewrite Hbag, Hhas, (bool_decide_eq_false_2 _ Hnew). simpl.
  rewrite length_app. simpl.
  rewrite bool_decide_eq_true_2 by lia. split; [done | lia].
Qed.

End DecisionTable.

(** ** What a submission changes *)

Section Frame.
Context {V : VocabOps} {B : LetterBagOps}.

(** C6.  Whatever the word and the session, [check] leaves the jumble and
    the target count of the session as they were, and it changes the
    matches only by appending the submitted word, which happens only when
    the submission is accepted (the outcome is then [Success] or
    [KeepGoing] with the word). *)
Theorem check_frame (text : string) (s : Session) :
  session_jumble (check text s).1 = session_jumble s
  ∧ session_target_count (check text s).1 = session_target_count s
  ∧ (session_matches (check text s).1 = session_matches s
     ∨ (∃ m, session_matches s = Some m
             ∧ session_matches (check text s).1 = Some (m ++ [text])
             ∧ ((check text s).2 = Return Success
                ∨ (check text s).2 = Return (KeepGoing text)))).
Proof.
  destruct (session_cases s) as [(j & t & m & ->)|Hs].
  - rewrite check_game. destruct (branch _ _ _); simpl; auto.
    do 2 (split; [done|]). right. exists m. do 2 (split; [done|]).
    destruct (bool_decide _); auto.
  - destruct (check_no_game text s Hs) as [key ->]. simpl. auto.
Qed.

(** The two other pages leave the whole session as it was. *)
Lemma pages_keep_session (s : Session) :
  keep_going s = (s, Return "vocab.html")
  ∧ success s = (s, Return "success.html").
Proof. done. Qed.

(** A submission never shortens the matches of a started game and keeps
    the game started. *)
Lemma check_game_grows (text j : string) (t : Z) (m : list string) :
  ∃ m', (check text (game j t m)).1 = game j t m'
        ∧ (length m ≤ length m')%nat.
Proof.
  rewrite check_game. destruct (branch _ _ _); simpl; eauto.
  exists (m ++ [text]). rewrite length_app. split; [done | lia].
Qed.

Lemma complete_game (j : string) (t : Z) (m : list string) :
  complete (game j t m) = true ↔ t ≤ Z.of_nat (length m).
Proof. unfold complete, game. simpl. apply bool_decide_eq_true. Qed.

(** One submission keeps a complete session complete. *)
Lemma complete_check (text : string) (s : Session) :
  complete s = true → complete (check text s).1 = true.
Proof.
  intros Hc. destruct (session_cases s) as [(j & t & m & ->)|Hs].
  - destruct (check_game_grows text j t m) as (m' & -> & Hlen).
    apply complete_game in Hc. apply complete_game. lia.
  - destruct (check_no_game text s Hs) as [key ->]. done.
Qed.

(** C7.  Once the session is complete (the match count has reached the
    target), it stays complete after every further submission, however
    many follow and whatever their words. *)
Theorem complete_is_terminal (texts : list string) (s : Session) :
  complete s = true → complete (submit_all texts s) = true.
Proof.
  revert s. induction texts as [|text texts IH]; intros s Hc; [done|].
  simpl. apply IH. by apply complete_check.
Qed.

End Frame.

(** ** Starting a new game *)

Section NewGame.
Context {V : VocabOps} {J : JumbleOps} {C : Config}.

(** [index] in one step: the target is stored first; when the generator
    raises, nothing else has been written; when it returns, the jumble
    and the empty matches are stored and the last assertion decides. *)
Lemma index_run (e : Entropy) (s : Session) :
  index e s =
    match jumbled as_list new_target (seed_arg SEED) e with
    | Return j =>
        (game j new_target [],
         if bool_decide (0 < new_target) then Return "vocab.html"
         else Raise AssertionError)
    | Raise x =>
        (mkSession (session_jumble s) (Some new_target) (session_matches s),
         Raise x)
    end.
Proof.
  unfold index, game. run_handler.
  destruct (jumbled _ _ _ _); [|done].
  by destruct (bool_decide (0 < new_target)).
Qed.

(** C8.  [index] sets the target count of the session to the smaller of
    the vocabulary size and the configured success threshold.  Whenever
    [index] returns its page this value is positive, and [index] does
    return its page, with the session of a new game, whenever the value is
    positive and the generator delivers a jumble. *)
Theorem index_target_count (e : Entropy) (s : Session) :
  session_target_count (index e s).1 = Some new_target
  ∧ (∀ page, (index e s).2 = Return page → 0 < new_target)
  ∧ (∀ j, 0 < new_target →
          jumbled as_list new_target (seed_arg SEED) e = Return j →
          index e s = (game j new_target [], Return "vocab.html")).
Proof.
  rewrite index_run. split; [|split].
  - by destruct (jumbled _ _ _ _).
  - intros page. destruct (jumbled _ _ _ _); simpl; [|done].
    case_bool_decide; [done|discriminate].
  - intros j Hpos ->. by rewrite bool_decide_eq_true_2.
Qed.

(** C9.  Whenever the generator delivers a jumble, the session that
    [index] leaves has empty matches, whatever the session was before; and
    running [index] once more leaves the matches as they are, empty. *)
Theorem index_resets_matches (e e' : Entropy) (s : Session) (j j' : string) :
  jumbled as_list new_target (seed_arg SEED) e = Return j →
  jumbled as_list new_target (seed_arg SEED) e' = Return j' →
  session_matches (index e s).1 = Some []
  ∧ session_matches (index e' (index e s).1).1 = session_matches (index e s).1.
Proof.
  intros Hj Hj'. rewrite !index_run, Hj, Hj'. done.
Qed.

(** With a positive seed [index] hands the seed to the generator, so a
    generator that is reproducible for that seed makes the whole request
    reproducible. *)
Lemma index_reproducible (n : Z) (e e' : Entropy) (s : Session) :
  SEED = Some n → 0 < n →
  jumbled as_list new_target (Some n) e = jumbled as_list new_target (Some n) e' →
  index e s = index e' s.
Proof.
  intros HS Hn Hrep. rewrite !index_run, HS. unfold seed_arg.
  replace (n =? 0) with false by lia. replace (n <? 0) with false by lia.
  simpl. by rewrite Hrep.
Qed.

(** With the seed [0], as with a negative seed or none, the generator is
    called without a seed. *)
Lemma index_unseeded (e : Entropy) (s : Session) :
  SEED = None ∨ (∃ n, SEED = Some n ∧ n ≤ 0) →
  index e s =
    match jumbled as_list new_target None e with
    | Return j =>
        (game j new_target [],
         if bool_decide (0 < new_target) then Return "vocab.html"
         else Raise AssertionError)
    | Raise x =>
        (mkSession (session_jumble s) (Some new_target) (session_matches s),
         Raise x)
    end.
Proof.
  intros HS. rewrite index_run.
  assert (seed_arg SEED = None) as ->; [|done].
  destruct HS as [->|(n & -> & Hn)]; [done|]. unfold seed_arg.
  destruct (n =? 0) eqn:E0; [done|]. simpl.
  replace (n <? 0) with true by lia. done.
Qed.

End NewGame.

(** ** The submitted word is used as it is *)

Section AsSubmitted.
Context {V : VocabOps} {B : LetterBagOps}.

Lemma string_length_app (s1 s2 : string) :
  String.length (s1 +:+ s2) = (String.length s1 + String.length s2)%nat.
Proof.
  induction s1 as [|c s1 IH]; [done|].
  change (S (String.length (s1 +:+ s2))
          = S (String.length s1 + String.length s2)).
  by rewrite IH.
Qed.

(** The reply "You already found {text}" is given to the words that are in
    the matches, letter for letter, and to no other word. *)
Lemma already_found_iff (text jumble : string) (t : Z) (m : list string) :
  text ∈ m ↔
  (check text (game jumble t m)).2
    = Return (Error ("You already found " +:+ text)).
Proof.
  rewrite check_game. unfold branch. split.
  - intros Hin. by rewrite (bool_decide_eq_true_2 _ Hin), andb_false_r.
  - intros Hr. destruct (decide (text ∈ m)) as [|Hnew]; [done|exfalso].
    rewrite (bool_decide_eq_false_2 _ Hnew), andb_true_r in Hr.
    destruct (has text), (contains jumble text); simpl in Hr.
    + by destruct (bool_decide _).
    + unfold msg_not_in_jumble, dquote in Hr. cbv [String.append] in Hr.
      discriminate.
    + injection Hr as Hr. apply (f_equal String.length) in Hr.
      unfold msg_not_in_vocab in Hr. rewrite !string_length_app in Hr.
      simpl in Hr. lia.
    + injection Hr as Hr. apply (f_equal String.length) in Hr.
      unfold msg_not_in_vocab in Hr. rewrite !string_length_app in Hr.
      simpl in Hr. lia.
Qed.

(** The three messages of [check] for one word differ from each other,
    by their lengths. *)
Lemma messages_differ (text jumble : string) :
  msg_already_found text ≠ msg_not_in_vocab text
  ∧ msg_already_found text ≠ msg_not_in_jumble text jumble
  ∧ msg_not_in_vocab text ≠ msg_not_in_jumble text jumble.
Proof.
  unfold msg_already_found, msg_not_in_vocab, msg_not_in_jumble, dquote.
  repeat split; intros Heq; apply (f_equal String.length) in Heq;
    rewrite !string_length_app in Heq; simpl in Heq; lia.
Qed.

(** The four ways a submission on a started game ends, each with the
    values of the three tests on the text as submitted. *)
Lemma check_game_outcome (text jumble : string) (t : Z) (m : list string) :
  (text ∈ m
   ∧ check text (game jumble t m)
     = (game jumble t m, Return (Error (msg_already_found text))))
  ∨ ((text ∉ m) ∧ has text = false
     ∧ check text (game jumble t m)
       = (game jumble t m, Return (Error (msg_not_in_vocab text))))
  ∨ ((text ∉ m) ∧ has text = true ∧ contains jumble text = false
     ∧ check text (game jumble t m)
       = (game jumble t m, Return (Error (msg_not_in_jumble text jumble))))
  ∨ ((text ∉ m) ∧ has text = true ∧ contains jumble text = true
     ∧ ∃ r, check text (game jumble t m)
            = (game jumble t (m ++ [text]), Return r)
            ∧ (r = Success ∨ r = KeepGoing text)).
Proof.
  rewrite check_game. unfold branch.
  destruct (decide (text ∈ m)) as [Hin|Hin].
  - rewrite (bool_decide_eq_true_2 _ Hin), andb_false_r. by left.
  - rewrite (bool_decide_eq_false_2 _ Hin), andb_true_r. right.
    destruct (has text); simpl; [|by left]. right.
    destruct (contains jumble text); simpl; [|by left]. right.
    do 3 (split; [done|]).
    destruct (bool_decide _); eauto.
Qed.

(** C4, as the code has it.  [check] applies no trimming and no
    lowercasing: the outcome for a submitted word is decided by the three
    tests made on the text exactly as it was submitted, and by nothing
    else.  The word is appended to the matches, as it was submitted,
    exactly when the letter bag of the jumble contains that text, the
    vocabulary has that text and that text is not, letter for letter,
    among the matches.  The reply "You already found {text}" is given
    exactly when the text is among the matches; "{text} isn't in the list
    of words" exactly when it is not among them and the vocabulary does
    not have that text; the third message exactly when it is not among
    them, the vocabulary has that text and the letter bag does not contain
    it.  Hence a vocabulary and a letter bag that answer alike on the
    submitted text give the same result, whatever they answer on its
    trimmed, lowercased form or on any other word. *)
Theorem check_uses_text_as_submitted
    (text jumble : string) (t : Z) (m : list string) :
  (text ∈ m ↔
     (check text (game jumble t m)).2
       = Return (Error ("You already found " +:+ text)))
  ∧ (contains jumble text = true ∧ has text = true ∧ (text ∉ m) ↔
     session_matches (check text (game jumble t m)).1 = Some (m ++ [text]))
  ∧ ((text ∉ m) ∧ has text = false ↔
     (check text (game jumble t m)).2
       = Return (Error (text +:+ " isn't in the list of words")))
  ∧ ((text ∉ m) ∧ has text = true ∧ contains jumble text = false ↔
     (check text (game jumble t m)).2
       = Return (Error (dquote +:+ text +:+ dquote
                        +:+ " can't be made from the letters " +:+ jumble)))
  ∧ (∀ (V' : VocabOps) (B' : LetterBagOps),
       has (VocabOps:=V') text = has (VocabOps:=V) text →
       contains (LetterBagOps:=B') jumble text
       = contains (LetterBagOps:=B) jumble text →
       check (V:=V') (B:=B') text (game jumble t m)
       = check (V:=V) (B:=B) text (game jumble t m)).
Proof.
  assert (Some (m ++ [text]) ≠ Some m) as Hgrow.
  { intros [= Heq]. apply (f_equal length) in Heq.
    rewrite length_app in Heq. simpl in Heq. lia. }
  destruct (messages_differ text jumble) as (Hd1 & Hd2 & Hd3).
  change ("You already found " +:+ text) with (msg_already_found text).
  change (text +:+ " isn't in the list of words") with (msg_not_in_vocab text).
  change (dquote +:+ text +:+ dquote
          +:+ " can't be made from the letters " +:+ jumble)
    with (msg_not_in_jumble text jumble).
  split; [|split; [|split; [|split]]].
  5: { intros V' B' Hhas Hbag.
    rewrite (check_game (V:=V') (B:=B')), (check_game (V:=V) (B:=B)).
    by rewrite Hhas, Hbag. }
  all: destruct (check_game_outcome text jumble t m)
         as [(Hin & ->)|[(Hin & Hhas & ->)|[(Hin & Hhas & Hbag & ->)
            |(Hin & Hhas & Hbag & r & -> & Hr)]]]; simpl.
  all: split; intros Hx; simpl in *; try done.
  all: try (destruct Hr as [-> | ->]; discriminate).
  all: try (exfalso; injection Hx as Hx; congruence).
  all: exfalso; destruct_and?; try contradiction; congruence.
Qed.

(** Whatever the vocabulary and the letter bag do with capitals, a word
    that differs in case from a matched word is not answered like it. *)
Lemma case_matters (jumble : string) (t : Z) :
  check "CAT" (game jumble t ["cat"]) ≠ check "cat" (game jumble t ["cat"]).
Proof.
  intros Heq. apply (f_equal snd) in Heq.
  assert ("cat" ∈ ["cat"]) as Hin by by apply list_elem_of_singleton.
  apply (already_found_iff "cat" jumble t) in Hin.
  rewrite Hin in Heq.
  assert ("CAT" ∉ ["cat"]) as Hnew
    by (intros Hc%list_elem_of_singleton; discriminate).
  apply Hnew. apply (already_found_iff "CAT" jumble t).
  rewrite check_game in *. unfold branch in *.
  rewrite (bool_decide_eq_false_2 _ Hnew), andb_true_r in *.
  destruct (has "CAT"), (contains jumble "CAT"); simpl in Heq;
    try destruct (bool_decide _); discriminate.
Qed.

End AsSubmitted.

(** ** The handlers on concrete games

    The vocabulary, the letter bag and the generator are those of
    [SpecModel]; the vocabulary is cat, cats, act. *)

Import SpecModel.

(** The accepted word that completes the game of the scenario, run by
    [check] and read off the table. *)
Example spec_submit_example :
  check (V:=Scenario.vocab) "act" Scenario.s1
    = spec_submit (V:=Scenario.vocab) "act" "tacs" 2 ["cat"]
  ∧ spec_submit (V:=Scenario.vocab) "act" "tacs" 2 ["cat"]
    = (Scenario.s2, Return Success).
Proof. split; by vm_compute. Qed.

Lemma rejections_are_data_witness :
  ∃ message,
    check (V:=Scenario.vocab) "cats" (game "ta" 2 ["cat"])
      = (game "ta" 2 ["cat"], Return (Error message))
    ∧ (("cats" ∈ ["cat"] ∧ message = "You already found " +:+ "cats")
       ∨ (("cats" ∉ ["cat"]) ∧ has (VocabOps:=Scenario.vocab) "cats" = false
          ∧ message = "cats" +:+ " isn't in the list of words")
       ∨ (("cats" ∉ ["cat"]) ∧ has (VocabOps:=Scenario.vocab) "cats" = true
          ∧ contains "ta" "cats" = false
          ∧ message = dquote +:+ "cats" +:+ dquote
                      +:+ " can't be made from the letters " +:+ "ta")).
Proof.
  apply (rejections_are_data (V:=Scenario.vocab) "cats" "ta" 2 ["cat"]).
  intros (Hbag & _ & _). vm_compute in Hbag. discriminate Hbag.
Defined.

Lemma accepted_when_complete_witness :
  check (V:=Scenario.vocab) "cats" (game "tacs" 2 ["cat"; "act"])
    = (game "tacs" 2 (["cat"; "act"] ++ ["cats"]), Return Success)
  ∧ 2 < Z.of_nat (length (["cat"; "act"] ++ ["cats"])).
Proof.
  apply (accepted_when_complete (V:=Scenario.vocab) "cats" "tacs" 2 ["cat"; "act"]).
  - simpl. lia.
  - vm_compute. reflexivity.
  - vm_compute. reflexivity.
  - apply (bool_decide_unpack _). vm_compute. exact I.
Defined.

Lemma complete_is_terminal_witness :
  complete (submit_all (V:=Scenario.vocab) ["cats"; "dog"; " Cat"; "cat"] Scenario.s2)
    = true.
Proof.
  apply (complete_is_terminal (V:=Scenario.vocab) ["cats"; "dog"; " Cat"; "cat"]
           Scenario.s2).
  vm_compute. reflexivity.
Defined.

Lemma check_uses_text_as_submitted_witness :
  SpecModel.normalize "ACT" = "act"
  ∧ has (VocabOps:=Scenario.vocab) "act" = true
  ∧ contains "tacs" "act" = true
  ∧ (check (V:=Scenario.vocab) "ACT" (game "tacs" 2 ["cat"])).2
    = Return (Error ("ACT" +:+ " isn't in the list of words"))
  ∧ session_matches (check (V:=Scenario.vocab) "ACT" (game "tacs" 2 ["cat"])).1
    ≠ Some (["cat"] ++ ["ACT"]).
Proof.
  destruct (check_uses_text_as_submitted (V:=Scenario.vocab)
              "ACT" "tacs" 2 ["cat"]) as (_ & Happ & Hvoc & _ & _).
  split; [vm_compute; reflexivity|]. split; [vm_compute; reflexivity|].
  split; [vm_compute; reflexivity|]. split.
  - apply Hvoc. split; [|vm_compute; reflexivity].
    intros Hc%list_elem_of_singleton. discriminate Hc.
  - intros Heq. apply Happ in Heq. destruct Heq as (_ & Hv & _).
    vm_compute in Hv. discriminate Hv.
Defined.

(** C4 as stated fails: the game has matched "cat"; the submission " Cat"
    is not in the vocabulary as it stands, while its trimmed, lowercased
    form "cat" is answered as already found. *)
Lemma normalization_counterexample :
  SpecModel.normalize " Cat" = "cat"
  ∧ check (V:=Scenario.vocab) " Cat" Scenario.s1
      = (Scenario.s1, Return (Error " Cat isn't in the list of words"))
  ∧ check (V:=Scenario.vocab) (SpecModel.normalize " Cat") Scenario.s1
      = (Scenario.s1, Return (Error "You already found cat"))
  ∧ check (V:=Scenario.vocab) " Cat" Scenario.s1
      ≠ check (V:=Scenario.vocab) (SpecModel.normalize " Cat") Scenario.s1.
Proof.
  split; [by vm_compute|]. split; [by vm_compute|]. split; [by vm_compute|].
  vm_compute. discriminate.
Qed.

Lemma index_target_count_witness :
  session_target_count
    (index (V:=Scenario.vocab) (J:=jumble_ops) (C:=Scenario.cfg) 7 empty_session).1 = Some 2
  ∧ index (V:=Scenario.vocab) (J:=jumble_ops) (C:=Scenario.cfg) 7 empty_session
    = (game "cscaatt" 2 [], Return "vocab.html").
Proof.
  destruct (index_target_count (V:=Scenario.vocab) (J:=jumble_ops) (C:=Scenario.cfg)
              7 empty_session) as (Hset & _ & Hstart).
  split; [exact Hset|]. apply Hstart.
  - vm_compute. reflexivity.
  - vm_compute. reflexivity.
Defined.

Lemma index_resets_matches_witness :
  session_matches
    (index (V:=Scenario.vocab) (J:=jumble_ops) (C:=Scenario.cfg) 7 Scenario.s2).1 = Some []
  ∧ session_matches
      (index (V:=Scenario.vocab) (J:=jumble_ops) (C:=Scenario.cfg) 8
         (index (V:=Scenario.vocab) (J:=jumble_ops) (C:=Scenario.cfg) 7 Scenario.s2).1).1
    = session_matches
        (index (V:=Scenario.vocab) (J:=jumble_ops) (C:=Scenario.cfg) 7 Scenario.s2).1.
Proof.
  apply (index_resets_matches (V:=Scenario.vocab) (J:=jumble_ops) (C:=Scenario.cfg)
           7 8 Scenario.s2 "cscaatt" "cscaatt").
  - vm_compute. reflexivity.
  - vm_compute. reflexivity.
Defined.

(** The generator of [SpecModel] is reproducible for every seed that is
    not negative, the seed [0] included. *)
Lemma generate_reproducible (words : list string) (k n e e' : Z) :
  0 ≤ n →
  SpecModel.generate words k (Some n) e = SpecModel.generate words k (Some n) e'.
Proof.
  intros Hn. unfold SpecModel.generate.
  by replace (n <? 0) with false by lia.
Qed.

(** C5 at the seed [0].  [index] hands [None] to the generator, as it does
    for an absent seed.  With the generator of [SpecModel], which is itself
    reproducible at the seed [0], two requests with the configured seed
    [0] get different jumbles. *)
Theorem seed_zero_not_reproducible :
  seed_arg (Some 0) = None
  ∧ SpecModel.generate ["cat"; "cats"; "act"] 2 (Some 0) 7
    = SpecModel.generate ["cat"; "cats"; "act"] 2 (Some 0) 8
  ∧ session_jumble
      (index (V:=Scenario.vocab) (J:=jumble_ops) (C:=SpecModel.config 2 (Some 0))
             7 empty_session).1 = Some "caatcts"
  ∧ session_jumble
      (index (V:=Scenario.vocab) (J:=jumble_ops) (C:=SpecModel.config 2 (Some 0))
             8 empty_session).1 = Some "tcaastc"
  ∧ index (V:=Scenario.vocab) (J:=jumble_ops) (C:=SpecModel.config 2 (Some 0))
          7 empty_session
    ≠ index (V:=Scenario.vocab) (J:=jumble_ops) (C:=SpecModel.config 2 (Some 0))
            8 empty_session.
Proof.
  split; [by vm_compute|]. split; [by vm_compute|]. split; [by vm_compute|].
  split; [by vm_compute|]. vm_compute. discriminate.
Qed.

(** C5 away from [0]: with a positive seed and the generator of
    [SpecModel], two requests from the same session agree, whatever the
    ambient randomness. *)
Lemma positive_seed_reproducible
    (words : list string) (k n e e' : Z) (s : Session) :
  0 < n →
  index (V:=SpecModel.vocab_ops words) (J:=jumble_ops) (C:=SpecModel.config k (Some n)) e s
  = index (V:=SpecModel.vocab_ops words) (J:=jumble_ops) (C:=SpecModel.config k (Some n)) e' s.
Proof.
  intros Hn. apply (index_reproducible n); [done|done|].
  apply generate_reproducible. lia.
Qed.

(** * Further properties of the handlers *)

(** ** Submissions without a game, and repeated submissions *)

Section Submissions.
Context {V : VocabOps} {B : LetterBagOps}.

(** One submission on a started game: either the word is playable and new,
    and it is appended; or it is not, and the session stays. *)
Lemma check_game_step (text j : string) (t : Z) (m : list string) :
  (playable j text ∧ (text ∉ m)
   ∧ (check text (game j t m)).1 = game j t (m ++ [text]))
  ∨ (¬ (playable j text ∧ (text ∉ m))
     ∧ (check text (game j t m)).1 = game j t m).
Proof.
  rewrite check_game. unfold branch, playable.
  destruct (decide (text ∈ m)) as [Hin|Hin].
  - rewrite (bool_decide_eq_true_2 _ Hin), andb_false_r. simpl.
    right. split; [tauto | done].
  - rewrite (bool_decide_eq_false_2 _ Hin), andb_true_r.
    destruct (has text), (contains j text); simpl;
      [left; done | right..]; (split; [intros [[??] ?]; discriminate | done]).
Qed.

(** Without a started game the submissions change nothing. *)
Lemma submit_all_no_game (texts : list string) (s : Session) :
  session_jumble s = None ∨ session_target_count s = None
    ∨ session_matches s = None →
  submit_all texts s = s.
Proof.
  intros Hs. induction texts as [|text texts IH]; [done|]. simpl.
  destruct (check_no_game text s Hs) as [key ->]. exact IH.
Qed.

(** X1.  A submission that arrives before a game was started raises
    [KeyError] and leaves the session as it was.  The key named is
    [jumble] when that is missing, else [target_count], else [matches]:
    the default of [session.get("matches", [])] never takes effect,
    because the session is indexed with ["matches"] again before the
    decision. *)
Theorem check_missing_key (text : string) (s : Session) :
  (session_jumble s = None → check text s = (s, Raise (KeyError "jumble")))
  ∧ (is_Some (session_jumble s) → session_target_count s = None →
     check text s = (s, Raise (KeyError "target_count")))
  ∧ (is_Some (session_jumble s) → is_Some (session_target_count s) →
     session_matches s = None →
     check text s = (s, Raise (KeyError "matches"))).
Proof.
  destruct s as [[j|] [t|] [m|]]; unfold check; run_handler;
    repeat split; intros; try done;
    repeat match goal with
           | H : is_Some None |- _ => destruct H as [? H]; discriminate H
           end.
Qed.

(** X5.  Submitting the same word once more never changes the session
    again.  A word that was accepted is then answered "You already found
    {word}"; a word that was rejected gets the same message again; a
    submission that raised raises again. *)
Theorem resubmission (text : string) (s : Session) :
  check text (check text s).1
  = ((check text s).1,
     match (check text s).2 with
     | Return Success | Return (KeepGoing _) =>
         Return (Error ("You already found " +:+ text))
     | r => r
     end).
Proof.
  destruct (session_cases s) as [(j & t & m & ->)|Hs].
  - rewrite (check_game text j t m). unfold branch.
    destruct (decide (text ∈ m)) as [Hin|Hin].
    + rewrite (bool_decide_eq_true_2 _ Hin), andb_false_r. simpl.
      rewrite check_game. unfold branch.
      by rewrite (bool_decide_eq_true_2 _ Hin), andb_false_r.
    + rewrite (bool_decide_eq_false_2 _ Hin), andb_true_r.
      destruct (has text) eqn:Hhas, (contains j text) eqn:Hbag; simpl.
      * assert (text ∈ m ++ [text]) as Hnow
          by (apply elem_of_app; right; by apply list_elem_of_singleton).
        rewrite check_game. unfold branch.
        rewrite (bool_decide_eq_true_2 _ Hnow), andb_false_r. simpl.
        by destruct (bool_decide (t ≤ _)).
      * rewrite check_game. unfold branch.
        by rewrite Hhas, Hbag, (bool_decide_eq_false_2 _ Hin).
      * rewrite check_game. unfold branch.
        by rewrite Hhas, Hbag, (bool_decide_eq_false_2 _ Hin).
      * rewrite check_game. unfold branch.
        by rewrite Hhas, Hbag, (bool_decide_eq_false_2 _ Hin).
  - destruct (check_no_game text s Hs) as [key Hk]. rewrite Hk. simpl.
    by rewrite Hk.
Qed.

(** X6.  The response tells the state of the game: [check] answers
    [Success] exactly when it has appended the word and the session is
    then complete, and it answers [KeepGoing] with the submitted word
    exactly when it has appended the word and the session is not yet
    complete. *)
Theorem response_tells_state (text : string) (s : Session) :
  ((check text s).2 = Return Success
   ↔ session_matches (check text s).1 ≠ session_matches s
     ∧ complete (check text s).1 = true)
  ∧ (∀ w, (check text s).2 = Return (KeepGoing w)
          ↔ w = text
            ∧ session_matches (check text s).1 ≠ session_matches s
            ∧ complete (check text s).1 = false).
Proof.
  assert (∀ m : list string, Some (m ++ [text]) ≠ Some m) as Hgrow.
  { intros m Heq. injection Heq as Heq. apply (f_equal length) in Heq.
    rewrite length_app in Heq. simpl in Heq. lia. }
  destruct (session_cases s) as [(j & t & m & ->)|Hs].
  - rewrite check_game.
    pose proof (branch_total (contains j text) (has text)
                             (bool_decide (text ∈ m))) as Hb.
    destruct (branch _ _ _); try done; simpl.
    + unfold complete. simpl. destruct (bool_decide (t ≤ _)).
      * split; [|intros w]; split; try discriminate.
        -- intros _. split; [apply Hgrow | done].
        -- done.
        -- intros (_ & _ & ?). discriminate.
      * split; [|intros w]; split; try discriminate.
        -- intros [_ ?]. discriminate.
        -- intros [= ->]. split; [done|]. split; [apply Hgrow | done].
        -- by intros (-> & _).
    + split; [|intros w]; (split; [discriminate|]).
      * intros [Hne _]. by destruct Hne.
      * intros (_ & Hne & _). by destruct Hne.
    + split; [|intros w]; (split; [discriminate|]).
      * intros [Hne _]. by destruct Hne.
      * intros (_ & Hne & _). by destruct Hne.
    + split; [|intros w]; (split; [discriminate|]).
      * intros [Hne _]. by destruct Hne.
      * intros (_ & Hne & _). by destruct Hne.
  - destruct (check_no_game text s Hs) as [key ->]. simpl.
    split; [|intros w]; (split; [discriminate|]).
    + intros [Hne _]. by destruct Hne.
    + intros (_ & Hne & _). by destruct Hne.
Qed.

End Submissions.

(** ** The matches after a run of submissions *)

Section Matches.
Context {V : VocabOps} {B : LetterBagOps}.

Lemma submit_all_cons (text : string) (texts : list string) (s : Session) :
  submit_all (text :: texts) s = submit_all texts (check text s).1.
Proof. reflexivity. Qed.

(** A run of submissions on a started game, by induction on the run: the
    game keeps its jumble and target, the matches are extended at their
    end, and a word is among them exactly when it was before or is a
    playable word of the run. *)
Lemma submit_all_game (texts : list string) (j : string) (t : Z) (m : list string) :
  ∃ m', submit_all texts (game j t m) = game j t m'
        ∧ m `prefix_of` m'
        ∧ (length m' ≤ length m + length texts)%nat
        ∧ (NoDup m → NoDup m')
        ∧ (∀ w, w ∈ m' ↔ w ∈ m ∨ (w ∈ texts ∧ playable j w)).
Proof.
  revert m. induction texts as [|text texts IH]; intros m.
  - exists m. split; [done|]. split; [done|]. split; [simpl; lia|].
    split; [done|]. intros w. split; [by left|].
    intros [?|[Hw _]]; [done|]. by apply elem_of_nil in Hw.
  - rewrite submit_all_cons.
    destruct (check_game_step text j t m)
      as [(Hplay & Hnew & ->)|(Hrej & ->)].
    + destruct (IH (m ++ [text])) as (m' & -> & Hpre & Hlen & Hnd & Hin).
      exists m'. split; [done|]. split; [|split; [|split]].
      * etrans; [|exact Hpre]. by apply prefix_app_r.
      * rewrite length_app in Hlen. simpl in *. lia.
      * intros Hm. apply Hnd, NoDup_app. split; [done|]. split.
        -- intros x Hx [-> | Hx']%elem_of_cons; [done|].
           by apply elem_of_nil in Hx'.
        -- apply NoDup_singleton.
      * intros w. rewrite Hin, elem_of_app, list_elem_of_singleton, elem_of_cons.
        split.
        -- intros [[? | ->] | [? ?]]; [by left|right..]; split; auto.
        -- intros [? | [[-> | ?] ?]]; [by left; left|by left; right|by right].
    + destruct (IH m) as (m' & -> & Hpre & Hlen & Hnd & Hin).
      exists m'. split; [done|]. split; [done|]. split; [simpl; lia|].
      split; [done|]. intros w. rewrite Hin, elem_of_cons. split.
      * intros [?|[? ?]]; [by left|right]. split; auto.
      * intros [? | [[-> | ?] Hp]]; [by left| |by right].
        left. destruct (decide (text ∈ m)) as [|Hnew]; [done|].
        destruct Hrej. by split.
Qed.

(** X2.  Submissions extend the matches at their end only: the matches
    held before a run of submissions are a prefix of the matches held
    after it, in the same order; each submission adds at most one match;
    and the jumble and the target of the session stay. *)
Theorem matches_grow_at_end (texts : list string) (s : Session) (m : list string) :
  session_matches s = Some m →
  ∃ m', session_matches (submit_all texts s) = Some m'
        ∧ m `prefix_of` m'
        ∧ (length m' ≤ length m + length texts)%nat
        ∧ session_jumble (submit_all texts s) = session_jumble s
        ∧ session_target_count (submit_all texts s) = session_target_count s.
Proof.
  intros Hm. destruct (session_cases s) as [(j & t & m0 & ->)|Hs].
  - injection Hm as ->.
    destruct (submit_all_game texts j t m) as (m' & -> & Hpre & Hlen & _).
    by exists m'.
  - rewrite (submit_all_no_game texts s Hs). exists m.
    split; [done|]. split; [done|]. split; [lia | done].
Qed.

(** X3.  The matches stay distinct and playable: when the matches of a
    started game are free of duplicates, they still are after any run of
    submissions, and when each of them is a vocabulary word that the
    jumble can spell, each of them still is. *)
Theorem matches_stay_distinct_playable
    (texts : list string) (j : string) (t : Z) (m : list string) :
  ∃ m', submit_all texts (game j t m) = game j t m'
        ∧ (NoDup m → NoDup m')
        ∧ (Forall (playable j) m → Forall (playable j) m').
Proof.
  destruct (submit_all_game texts j t m) as (m' & Hrun & _ & _ & Hnd & Hin).
  exists m'. split; [done|]. split; [done|].
  rewrite !Forall_forall. intros Hm w [Hw|[_ Hw]]%Hin; auto.
Qed.

(** X4.  After a run of submissions on a started game, a word is among
    the matches exactly when it was among them before, or it is one of
    the submitted words, [WORDS.has] holds of it and the letter bag of
    the jumble contains it. *)
Theorem matches_after_submissions
    (texts : list string) (j : string) (t : Z) (m : list string) (w : string) :
  (∃ m', session_matches (submit_all texts (game j t m)) = Some m' ∧ w ∈ m')
  ↔ w ∈ m ∨ (w ∈ texts ∧ has w = true ∧ contains j w = true).
Proof.
  destruct (submit_all_game texts j t m) as (m' & -> & _ & _ & _ & Hin).
  simpl. split.
  - intros (m'' & [= <-] & Hw). by apply Hin.
  - intros Hw. exists m'. split; [done|]. by apply Hin.
Qed.

(** X7.  A game cannot be completed faster than one match per submission:
    when a run of submissions leaves a started game complete, the matches
    held before plus the number of submissions reach the target. *)
Theorem completion_needs_submissions
    (texts : list string) (j : string) (t : Z) (m : list string) :
  complete (submit_all texts (game j t m)) = true →
  t ≤ Z.of_nat (length m) + Z.of_nat (length texts).
Proof.
  destruct (submit_all_game texts j t m) as (m' & -> & _ & Hlen & _).
  rewrite complete_game. lia.
Qed.

(** X8.  A game can be won: when the submitted words include enough
    distinct playable words to reach the target, the session is complete
    after the run, whatever else was submitted and in whatever order. *)
Theorem enough_playable_words_complete
    (texts ws : list string) (j : string) (t : Z) (m : list string) :
  NoDup ws → Forall (λ w, w ∈ texts ∧ playable j w) ws →
  t ≤ Z.of_nat (length ws) →
  complete (submit_all texts (game j t m)) = true.
Proof.
  intros Hnd Hws Ht.
  destruct (submit_all_game texts j t m) as (m' & -> & _ & _ & _ & Hin).
  apply complete_game.
  assert (length ws ≤ length m')%nat; [|lia].
  apply submseteq_length, NoDup_submseteq; [done|].
  intros w Hw. apply Hin. right.
  by apply (proj1 (Forall_forall _ _) Hws).
Qed.

End Matches.

(** ** How [index] ends *)

Section IndexOutcomes.
Context {V : VocabOps} {J : JumbleOps} {C : Config}.

Lemma new_target_nonpositive :
  new_target ≤ 0 ↔ as_list = [] ∨ SUCCESS_AT_COUNT ≤ 0.
Proof.
  destruct as_list as [|w ws]; simpl length; split.
  - intros _. by left.
  - intros _. lia.
  - intros Hn. right. lia.
  - intros [?|?]; [done | lia].
Qed.

(** X9.  When the generator raises, [index] passes the exception on and
    the visitor keeps the jumble and the matches held before, but the
    target count has already been replaced by the new one. *)
Theorem index_failure_keeps_game (e : Entropy) (s : Session) (x : Exn) :
  jumbled as_list new_target (seed_arg SEED) e = Raise x →
  (index e s).2 = Raise x
  ∧ session_jumble (index e s).1 = session_jumble s
  ∧ session_matches (index e s).1 = session_matches s
  ∧ session_target_count (index e s).1 = Some new_target.
Proof. intros Hx. by rewrite index_run, Hx. Qed.

(** X10.  With an empty vocabulary or a success threshold that is not
    positive, the target is not positive.  If the generator still returns
    a jumble, [index] raises [AssertionError] only after it has stored the
    new game, and the stored game is complete from the start. *)
Theorem index_nonpositive_target (e : Entropy) (s : Session) (j : string) :
  as_list = [] ∨ SUCCESS_AT_COUNT ≤ 0 →
  jumbled as_list new_target (seed_arg SEED) e = Return j →
  index e s = (game j new_target [], Raise AssertionError)
  ∧ complete (index e s).1 = true.
Proof.
  intros Hcfg%new_target_nonpositive Hj. rewrite index_run, Hj.
  rewrite bool_decide_eq_false_2 by lia. split; [done|].
  unfold complete. simpl. apply bool_decide_eq_true_2. lia.
Qed.

(** X11.  [index] raises only what the generator raised, or
    [AssertionError] for a target that is not positive.  It never fails on
    a session key, whatever the session, and its assertion that the
    matches are empty never fails. *)
Theorem index_exceptions (e : Entropy) (s : Session) (x : Exn) :
  (index e s).2 = Raise x →
  jumbled as_list new_target (seed_arg SEED) e = Raise x
  ∨ (x = AssertionError ∧ new_target ≤ 0
     ∧ ∃ j, jumbled as_list new_target (seed_arg SEED) e = Return j).
Proof.
  rewrite index_run. destruct (jumbled _ _ _ _) as [j|y]; simpl.
  - case_bool_decide as Hpos; [discriminate|]. intros [= <-].
    right. split; [done|]. split; [lia | by exists j].
  - intros [= ->]. by left.
Qed.

(** X12.  When [index] returns, it returns the page [vocab.html] and the
    session is a new game that owes nothing to the session before: the
    jumble of the generator, no matches, a positive target that is at most
    the vocabulary size, and hence a game that is not complete. *)
Theorem index_starts_active (e : Entropy) (s : Session) (page : Page) :
  (index e s).2 = Return page →
  page = "vocab.html"
  ∧ 0 < new_target ≤ Z.of_nat (length as_list)
  ∧ complete (index e s).1 = false
  ∧ ∃ j, jumbled as_list new_target (seed_arg SEED) e = Return j
         ∧ (index e s).1 = game j new_target [].
Proof.
  rewrite index_run. destruct (jumbled _ _ _ _) as [j|y]; simpl; [|done].
  case_bool_decide as Hpos; [|discriminate]. intros [= <-].
  split; [done|]. split; [lia|]. split; [|by exists j].
  unfold complete. simpl. apply bool_decide_eq_false_2. lia.
Qed.

(** X13.  The generator is given a seed only when the configured seed is
    a positive integer, and it is then given that very seed. *)
Theorem seed_arg_positive (S : option Z) (n : Z) :
  seed_arg S = Some n ↔ S = Some n ∧ 0 < n.
Proof.
  unfold seed_arg. destruct S as [k|].
  - destruct (Z.eqb_spec k 0) as [->|Hk0]; simpl.
    + split; [discriminate | intros [[= <-] ?]; lia].
    + destruct (Z.ltb_spec k 0) as [Hneg|Hpos]; split.
      * discriminate.
      * intros [[= <-] ?]. lia.
      * intros [= ->]. split; [done | lia].
      * by intros [[= ->] _].
  - split; [discriminate | intros [? _]; discriminate].
Qed.

End IndexOutcomes.

(** ** The sessions a visitor can reach *)

Section Reachable.
Context {V : VocabOps} {B : LetterBagOps} {J : JumbleOps} {C : Config}.

Lemma session_inv_empty : session_inv empty_session.
Proof. split; [by left | done]. Qed.

Lemma session_inv_check (text : string) (s : Session) :
  session_inv s → session_inv (check text s).1.
Proof.
  intros Hinv. destruct (session_cases s) as [(j & t & m & ->)|Hs].
  - destruct Hinv as [_ Hm].
    destruct (Hm m eq_refl) as (j' & [= <- ->] & Hnd & Hplay).
    destruct (check_game_step text j new_target m)
      as [(Hp & Hnew & ->)|(_ & ->)].
    + split; [by right|]. intros m' [= <-]. exists j. split; [done|]. split.
      * apply NoDup_app. split; [done|]. split; [|apply NoDup_singleton].
        intros x Hx [-> | Hx']%elem_of_cons; [done|].
        by apply elem_of_nil in Hx'.
      * apply Forall_app. split; [done|]. by apply Forall_singleton.
    + split; [by right|]. intros m' [= <-]. by exists j.
  - by destruct (check_no_game text s Hs) as [key ->].
Qed.

Lemma session_inv_index (e : Entropy) (s : Session) :
  session_inv s → session_inv (index e s).1.
Proof.
  intros [_ Hm]. rewrite index_run.
  destruct (jumbled _ _ _ _) as [j|x]; simpl.
  - split; [by right|]. intros m [= <-]. exists j.
    split; [done|]. split; [apply NoDup_nil_2 | apply Forall_nil_2].
  - split; [by right|]. simpl. intros m Hsm.
    destruct (Hm m Hsm) as (j & -> & Hnd & Hplay). by exists j.
Qed.

Lemma session_inv_handle (r : Request) (s : Session) :
  session_inv s → session_inv (handle r s).
Proof.
  destruct r; simpl; auto using session_inv_index, session_inv_check.
Qed.

Lemma session_inv_serve (rs : list Request) (s : Session) :
  session_inv s → session_inv (serve rs s).
Proof.
  revert s. induction rs as [|r rs IH]; intros s Hs; [done|].
  simpl. by apply IH, session_inv_handle.
Qed.

(** X14.  Whatever requests a new visitor makes, in whatever order and
    whether or not they fail, the session never holds a target count other
    than the one [index] stores; and when it holds matches it is a started
    game whose matches are distinct words, each of them accepted by
    [WORDS.has] and contained in the letter bag of the session's jumble. *)
Theorem reachable_sessions (rs : list Request) :
  (session_target_count (serve rs empty_session) = None
   ∨ session_target_count (serve rs empty_session) = Some new_target)
  ∧ (∀ m, session_matches (serve rs empty_session) = Some m →
       ∃ j, serve rs empty_session = game j new_target m
            ∧ NoDup m
            ∧ Forall (λ w, has w = true ∧ contains j w = true) m).
Proof. apply (session_inv_serve rs empty_session), session_inv_empty. Qed.

(** The handlers for 404 and 403 return their page with their status
    code; the handler for 500 raises at its assertion and returns
    nothing.  None of them touches the session. *)
Lemma error_handlers (e : string) (s : Session) :
  error_404 e s = (s, Return ("404.html", 404))
  ∧ error_403 e s = (s, Return ("403.html", 403))
  ∧ error_500 e s = (s, Raise AssertionError).
Proof. done. Qed.

End Reachable.

(** ** The further properties on concrete games *)

Lemma check_missing_key_witness :
  check (V:=Scenario.vocab) "cat" empty_session
    = (empty_session, Raise (KeyError "jumble"))
  ∧ check (V:=Scenario.vocab) "cat" (mkSession (Some "tacs") None (Some []))
    = (mkSession (Some "tacs") None (Some []), Raise (KeyError "target_count"))
  ∧ check (V:=Scenario.vocab) "cat" (mkSession (Some "tacs") (Some 2) None)
    = (mkSession (Some "tacs") (Some 2) None, Raise (KeyError "matches")).
Proof.
  split; [|split].
  - by apply (check_missing_key (V:=Scenario.vocab) "cat" empty_session).
  - by apply (check_missing_key (V:=Scenario.vocab) "cat"
                (mkSession (Some "tacs") None (Some []))).
  - by apply (check_missing_key (V:=Scenario.vocab) "cat"
                (mkSession (Some "tacs") (Some 2) None)).
Defined.

Lemma matches_grow_at_end_witness :
  ∃ m', session_matches
          (submit_all (V:=Scenario.vocab) ["dog"; "act"; "cat"] Scenario.s1)
        = Some m'
        ∧ ["cat"] `prefix_of` m'
        ∧ (length m' ≤ length ["cat"] + length ["dog"; "act"; "cat"])%nat
        ∧ session_jumble
            (submit_all (V:=Scenario.vocab) ["dog"; "act"; "cat"] Scenario.s1)
          = session_jumble Scenario.s1
        ∧ session_target_count
            (submit_all (V:=Scenario.vocab) ["dog"; "act"; "cat"] Scenario.s1)
          = session_target_count Scenario.s1.
Proof.
  apply (matches_grow_at_end (V:=Scenario.vocab) ["dog"; "act"; "cat"]
           Scenario.s1 ["cat"]).
  reflexivity.
Defined.

Lemma matches_stay_distinct_playable_witness :
  ∃ m', submit_all (V:=Scenario.vocab) ["act"; "act"; "cats"] (game "tacs" 2 ["cat"])
        = game "tacs" 2 m'
        ∧ NoDup m' ∧ Forall (playable (V:=Scenario.vocab) "tacs") m'.
Proof.
  destruct (matches_stay_distinct_playable (V:=Scenario.vocab)
              ["act"; "act"; "cats"] "tacs" 2 ["cat"]) as (m' & Hrun & Hnd & Hp).
  exists m'. split; [exact Hrun|]. split.
  - apply Hnd, NoDup_singleton.
  - apply Hp, Forall_singleton. split; vm_compute; reflexivity.
Defined.

Lemma completion_needs_submissions_witness :
  2 ≤ Z.of_nat (length (@nil string)) + Z.of_nat (length ["act"; "cat"]).
Proof.
  apply (completion_needs_submissions (V:=Scenario.vocab)
           ["act"; "cat"] "tacs" 2 []).
  vm_compute. reflexivity.
Defined.

Lemma enough_playable_words_complete_witness :
  complete (submit_all (V:=Scenario.vocab)
              ["dog"; "cats"; " Cat"; "act"; "cats"] (game "tacs" 2 []))
  = true.
Proof.
  apply (enough_playable_words_complete (V:=Scenario.vocab)
           ["dog"; "cats"; " Cat"; "act"; "cats"] ["act"; "cats"] "tacs" 2 []).
  - apply (bool_decide_unpack _). vm_compute. exact I.
  - repeat apply Forall_cons_2; [| |apply Forall_nil_2];
      (split; [apply (bool_decide_unpack _); vm_compute; exact I
              | split; vm_compute; reflexivity]).
  - simpl. lia.
Defined.

Lemma index_failure_keeps_game_witness :
  (index (V:=vocab_ops []) (J:=jumble_ops) (C:=config 2 None) 8 Scenario.s2).2
    = Raise InvalidInput
  ∧ session_jumble
      (index (V:=vocab_ops []) (J:=jumble_ops) (C:=config 2 None) 8 Scenario.s2).1
    = session_jumble Scenario.s2
  ∧ session_matches
      (index (V:=vocab_ops []) (J:=jumble_ops) (C:=config 2 None) 8 Scenario.s2).1
    = session_matches Scenario.s2
  ∧ session_target_count
      (index (V:=vocab_ops []) (J:=jumble_ops) (C:=config 2 None) 8 Scenario.s2).1
    = Some 0.
Proof.
  apply (index_failure_keeps_game (V:=vocab_ops []) (J:=jumble_ops)
           (C:=config 2 None) 8 Scenario.s2 InvalidInput).
  reflexivity.
Defined.

Lemma index_nonpositive_target_witness :
  index (V:=vocab_ops ["cat"]) (J:=jumble_ops) (C:=config 0 None) 8 Scenario.s2
    = (game "" 0 [], Raise AssertionError)
  ∧ complete
      (index (V:=vocab_ops ["cat"]) (J:=jumble_ops) (C:=config 0 None)
         8 Scenario.s2).1 = true.
Proof.
  apply (index_nonpositive_target (V:=vocab_ops ["cat"]) (J:=jumble_ops)
           (C:=config 0 None) 8 Scenario.s2 "").
  - right. simpl. lia.
  - vm_compute. reflexivity.
Defined.

Lemma index_exceptions_witness :
  generate [] 0 None 8 = Raise InvalidInput
  ∨ (InvalidInput = AssertionError ∧ 0 ≤ 0
     ∧ ∃ j, generate [] 0 None 8 = Return j).
Proof.
  apply (index_exceptions (V:=vocab_ops []) (J:=jumble_ops) (C:=config 2 None)
           8 Scenario.s2 InvalidInput).
  vm_compute. reflexivity.
Defined.

Lemma index_starts_active_witness :
  "vocab.html" = "vocab.html"
  ∧ 0 < 2 ≤ 3
  ∧ complete
      (index (V:=Scenario.vocab) (J:=jumble_ops) (C:=Scenario.cfg) 7 Scenario.s2).1
    = false
  ∧ ∃ j, generate ["cat"; "cats"; "act"] 2 (Some 42) 7 = Return j
         ∧ (index (V:=Scenario.vocab) (J:=jumble_ops) (C:=Scenario.cfg)
              7 Scenario.s2).1 = game j 2 [].
Proof.
  apply (index_starts_active (V:=Scenario.vocab) (J:=jumble_ops)
           (C:=Scenario.cfg) 7 Scenario.s2 "vocab.html").
  vm_compute. reflexivity.
Defined.

Lemma reachable_sessions_witness :
  ∃ j, serve (V:=Scenario.vocab) (C:=Scenario.cfg)
         [GET_check "cat"; GET_index (J:=jumble_ops) 7; GET_check "act"; GET_check "act";
          GET_keep_going; GET_check "dog"] empty_session
       = game j 2 ["act"]
       ∧ NoDup ["act"]
       ∧ Forall (λ w, has (VocabOps:=Scenario.vocab) w = true
                      ∧ contains j w = true) ["act"].
Proof.
  apply (reachable_sessions (V:=Scenario.vocab) (C:=Scenario.cfg)
           [GET_check "cat"; GET_index (J:=jumble_ops) 7; GET_check "act"; GET_check "act";
            GET_keep_going; GET_check "dog"]).
  vm_compute. reflexivity.
Defined.
